(** * Watermark removal: mask geometry, per-image processing and batch driver

    A shallow embedding of [main.py].  The program is a thin layer of control
    flow around an imaging library (cv2), numpy, pathlib and the console.  The
    control flow, the centring arithmetic, the exception discipline and the
    tally are modelled exactly as written; the library primitives the program
    calls are the fields of a record [Libs], so that every theorem of the
    generic part holds for any behaviour of those primitives. *)

From Stdlib Require Import List ZArith String Ascii Bool Lia QArith DecimalString.
Import ListNotations.
Close Scope Q_scope.
Open Scope string_scope.
Open Scope list_scope.

(** ** Python values used by the program *)

(** An instance of Python's [Exception]: its class name and [str(e)]. *)
Inductive exn : Type := Exn (cls : string) (msg : string).

Definition exn_str (e : exn) : string :=
  match e with Exn _ msg => msg end.

(** A numpy array of dtype uint8: its [shape] tuple and its elements in
    row-major order. *)
Record ndarray : Type := { shape : list nat; data : list Z }.

Definition size_of (shp : list nat) : nat := fold_right Nat.mul 1%nat shp.

(** [np.zeros(shp, dtype=np.uint8)] *)
Definition np_zeros (shp : list nat) : ndarray :=
  {| shape := shp; data := repeat 0%Z (size_of shp) |}.

(** [a.shape[i]], raising IndexError as a tuple does. *)
Definition shape_at (a : ndarray) (i : nat) : exn + Z :=
  match nth_error (shape a) i with
  | Some n => inr (Z.of_nat n)
  | None => inl (Exn "IndexError" "tuple index out of range")
  end.

(** The element of a two-dimensional array at row [r], column [c]
    (0 outside the buffer). *)
Definition pixel (a : ndarray) (r c : nat) : Z :=
  nth (r * nth 1 (shape a) 0%nat + c) (data a) 0%Z.

(** The element of a three-dimensional array (rows, columns, channels) at
    row [r], column [c], channel [k]; for a two-dimensional array the channel
    count is 1 and [k] is 0. *)
Definition element (a : ndarray) (r c k : nat) : Z :=
  nth ((r * nth 1 (shape a) 0%nat + c) * size_of (skipn 2 (shape a)) + k)
      (data a) 0%Z.

(** [str(n)] for a Python int. *)
Definition str_of_int (z : Z) : string := NilEmpty.string_of_int (Z.to_int z).

(** The cv2 constants the program names. *)
Inductive HersheyFont : Type := FONT_HERSHEY_SIMPLEX | FONT_HERSHEY_PLAIN.
Inductive LineType : Type := LINE_4 | LINE_8 | LINE_AA.
Inductive InpaintFlag : Type := INPAINT_NS | INPAINT_TELEA.

(** ** The libraries the program calls

    [FS] is the state of the file system.  A call that may raise returns
    [exn + _]; a call that changes the file system also returns the new state.
    [is_file] is pathlib's [Path.is_file]: the program never calls it, it is
    here so that statements can speak of entries that are not regular files. *)
Record Libs : Type := {
  FS : Type;
  Path : Type;
  (* pathlib and str *)
  mkPath : string -> Path;                       (* Path(s) *)
  path_str : Path -> string;                     (* str(p) *)
  path_name : Path -> string;                    (* p.name *)
  path_suffix : Path -> string;                  (* p.suffix *)
  path_div : Path -> string -> Path;             (* p / name *)
  str_lower : string -> string;                  (* s.lower() *)
  mkdir : Path -> bool -> bool -> FS -> (exn + unit) * FS;
                                                 (* p.mkdir(parents, exist_ok) *)
  iterdir : Path -> FS -> exn + list Path;       (* list(p.iterdir()) *)
  is_file : Path -> FS -> bool;
  (* cv2 *)
  getTextSize : string -> HersheyFont -> Q -> Z -> (Z * Z) * Z;
  putText : ndarray -> string -> Z * Z -> HersheyFont -> Q -> Z -> Z ->
            LineType -> exn + ndarray;
  inpaint : ndarray -> ndarray -> Z -> InpaintFlag -> exn + ndarray;
  imread : string -> FS -> exn + option ndarray;
  imwrite : string -> ndarray -> FS -> (exn + bool) * FS
}.

(** ** The world and the monad of the program: state plus exceptions *)

Record World (L : Libs) : Type := { fs : FS L; console : list string }.
Arguments fs {L} _.
Arguments console {L} _.
Arguments Build_World {L} _ _.

Definition M (L : Libs) (A : Type) : Type := World L -> (exn + A) * World L.

Definition ret {L A} (a : A) : M L A := fun w => (inr a, w).

Definition raise {L A} (e : exn) : M L A := fun w => (inl e, w).

Definition bind {L A B} (m : M L A) (k : A -> M L B) : M L B :=
  fun w => match m w with
           | (inr a, w') => k a w'
           | (inl e, w') => (inl e, w')
           end.

(** [try: m except Exception as e: h e] *)
Definition try_except {L A} (m : M L A) (h : exn -> M L A) : M L A :=
  fun w => match m w with
           | (inr a, w') => (inr a, w')
           | (inl e, w') => h e w'
           end.

(** A pure call that may raise. *)
Definition lift {L A} (r : exn + A) : M L A := fun w => (r, w).

(** A call that reads the file system. *)
Definition reads {L A} (f : FS L -> exn + A) : M L A := fun w => (f (fs w), w).

(** A call that changes the file system. *)
Definition writes {L A} (f : FS L -> (exn + A) * FS L) : M L A :=
  fun w => let '(r, s) := f (fs w) in
           (r, {| fs := s; console := console w |}).

(** [print(s)] *)
Definition put_line {L} (s : string) (w : World L) : World L :=
  {| fs := fs w; console := console w ++ [s] |}.

Definition print {L} (s : string) : M L unit := fun w => (inr tt, put_line s w).

Declare Scope py_scope.
Delimit Scope py_scope with py.
Notation "x <- m ;; k" := (bind m (fun x => k))
  (at level 100, m at next level, right associativity) : py_scope.
Notation "m ;;; k" := (bind m (fun _ => k))
  (at level 100, right associativity) : py_scope.

(** The same sequencing for calls that touch neither file system nor console. *)
Definition bind_r {A B} (r : exn + A) (k : A -> exn + B) : exn + B :=
  match r with inr a => k a | inl e => inl e end.

(** ** The program *)

Section Program.

Context (L : Libs).

Definition font_scale : Q := 6 # 1.
Definition thickness : Z := 18.

(** [generate_text_mask(image_shape, text)] *)
Definition generate_text_mask (image_shape : list nat) (text : string)
  : exn + ndarray :=
  let mask := np_zeros (firstn 2 image_shape) in
  let font := FONT_HERSHEY_SIMPLEX in
  let '(text_size, _) := getTextSize L text font font_scale thickness in
  let '(text_width, text_height) := text_size in
  bind_r (shape_at mask 1) (fun w1 =>
  let x := ((w1 - text_width) / 2)%Z in
  bind_r (shape_at mask 0) (fun h0 =>
  let y := ((h0 + text_height) / 2)%Z in
  putText L mask text (x, y) font font_scale 255%Z thickness LINE_AA)).

(** [remove_watermark(image_path, output_path, watermark_text)] *)
Definition remove_watermark (image_path output_path : Path L)
  (watermark_text : string) : M L bool :=
  (image <- reads (imread L (path_str L image_path)) ;;
   match image with
   | None =>
       print ("Error: Could not read image at " ++ path_str L image_path) ;;;
       ret false
   | Some image =>
       mask <- lift (generate_text_mask (shape image) watermark_text) ;;
       result <- lift (inpaint L image mask 7%Z INPAINT_TELEA) ;;
       writes (imwrite L (path_str L output_path) result) ;;;
       ret true
   end)%py.

Definition image_extensions : list string :=
  [".jpg"; ".jpeg"; ".png"; ".bmp"; ".tiff"; ".tif"].

(** [s in image_extensions] *)
Definition in_extensions (s : string) : bool :=
  existsb (String.eqb s) image_extensions.

(** The condition of the list comprehension of [process_images]. *)
Definition is_candidate (f : Path L) : bool :=
  in_extensions (str_lower L (path_suffix L f)).

(** The [for] loop of [process_images]. *)
Fixpoint process_loop (output_dir : Path L) (watermark_text : string)
  (image_files : list (Path L)) (processed_count : Z) : M L Z :=
  match image_files with
  | [] => ret processed_count
  | image_path :: rest =>
      let output_path := path_div L output_dir (path_name L image_path) in
      (ok <- remove_watermark image_path output_path watermark_text ;;
       process_loop output_dir watermark_text rest
         (if ok : bool then processed_count + 1 else processed_count)%Z)%py
  end.

(** [process_images(input_dir, output_dir, watermark_text)] *)
Definition process_images (input_dir output_dir : string)
  (watermark_text : string) : M L unit :=
  let output_dir := mkPath L output_dir in
  (writes (mkdir L output_dir true true) ;;;
   let input_dir := mkPath L input_dir in
   entries <- reads (iterdir L input_dir) ;;
   let image_files := filter is_candidate entries in
   match image_files with
   | [] => print ("No image files found in " ++ path_str L input_dir)
   | _ :: _ =>
       print ("Found " ++ str_of_int (Z.of_nat (List.length image_files))
                       ++ " images to process") ;;;
       processed_count <-
         process_loop output_dir watermark_text image_files 0%Z ;;
       print "Processing complete:" ;;;
       print ("- Successful: " ++ str_of_int processed_count) ;;;
       print ("- Failed: "
              ++ str_of_int (Z.of_nat (List.length image_files) - processed_count))
   end)%py.

(** The parsed command line. *)
Record Args : Type := { input_dir : string; output_dir : string; text : string }.

(** [main()], from the parsed arguments on. *)
Definition main (args : Args) : M L unit :=
  try_except
    (process_images (input_dir args) (output_dir args) (text args))
    (fun e => print ("Error: " ++ exn_str e)).

(** Running the script: the interpreter exits with status 0 when [main]
    returns and with status 1 when an exception escapes it. *)
Definition script (args : Args) (w : World L) : Z * World L :=
  match main args w with
  | (inr _, w') => (0%Z, w')
  | (inl _, w') => (1%Z, w')
  end.

End Program.

(** ** cv2's rasteriser and inpainting, as the spec describes them *)

(** Map with the index of each element. *)
Fixpoint imap_from {A B} (i : nat) (f : nat -> A -> B) (l : list A) : list B :=
  match l with
  | [] => []
  | a :: l' => f i a :: imap_from (S i) f l'
  end.

Definition imap {A B} (f : nat -> A -> B) (l : list A) : list B :=
  imap_from 0 f l.

(** A coverage, in 255ths of a pixel, kept within 0..255. *)
Definition clamp (a : Z) : Z := Z.max 0 (Z.min 255 a).

(** The value of a pixel holding [old] after a stroke of intensity [color]
    has covered [a] 255ths of it. *)
Definition blend (old color a : Z) : Z :=
  (old + (color - old) * clamp a / 255)%Z.

(** Modelled from the spec: cv2.putText, which is not part of the repository.
    It "rasterize[s] the text onto the mask buffer at (x, y) using
    anti-aliased strokes, filling with the maximum intensity value", and it
    "silently clip[s] rather than fail[s]" when the text does not fit.
    [coverage text org font scale thickness r c] is the share of the pixel at
    row [r], column [c] that the strokes of [text] anchored at [org] cover;
    the glyph geometry itself stays a parameter.  Only pixels of the buffer
    are visited, which is the clipping. *)
Definition putText_model
  (coverage : string -> Z * Z -> HersheyFont -> Q -> Z -> nat -> nat -> Z)
  (img : ndarray) (text : string) (org : Z * Z) (font : HersheyFont)
  (scale : Q) (color : Z) (thick : Z) (lineType : LineType) : exn + ndarray :=
  let cols := nth 1 (shape img) 0%nat in
  inr {| shape := shape img;
         data := imap (fun i old =>
                         blend old color
                           (coverage text org font scale thick
                              (i / cols)%nat (i mod cols)%nat))
                      (data img) |}.

(** Modelled from the spec: cv2.inpaint, which is not part of the repository.
    It "estimates replacement pixel values for every on mask pixel", returns
    "an image of identical dimensions/channel count to the input" in which
    "unmasked pixels are passed through unchanged", and faults on
    "incompatible mask dimensions".  A mask pixel is on when it is not zero.
    [estimate] is the value the fast-marching method computes for an element
    of a masked pixel; it stays a parameter. *)
Definition inpaint_model
  (estimate : ndarray -> ndarray -> Z -> InpaintFlag -> nat -> Z)
  (src mask : ndarray) (radius : Z) (flags : InpaintFlag) : exn + ndarray :=
  if list_eq_dec Nat.eq_dec (shape mask) (firstn 2 (shape src)) then
    let channels := size_of (skipn 2 (shape src)) in
    inr {| shape := shape src;
           data := imap (fun i v =>
                           if (nth (i / channels) (data mask) 0 =? 0)%Z
                           then v
                           else estimate src mask radius flags i)
                        (data src) |}
  else inl (Exn "cv2.error" "mask size does not match the image").

(** The libraries [L] with cv2's rasteriser and inpainting replaced by the
    models above. *)
Definition with_cv2_model (L : Libs)
  (coverage : string -> Z * Z -> HersheyFont -> Q -> Z -> nat -> nat -> Z)
  (estimate : ndarray -> ndarray -> Z -> InpaintFlag -> nat -> Z) : Libs :=
  {| FS := FS L; Path := Path L;
     mkPath := mkPath L; path_str := path_str L; path_name := path_name L;
     path_suffix := path_suffix L; path_div := path_div L;
     str_lower := str_lower L; mkdir := mkdir L; iterdir := iterdir L;
     is_file := is_file L;
     getTextSize := getTextSize L;
     putText := putText_model coverage;
     inpaint := inpaint_model estimate;
     imread := imread L; imwrite := imwrite L |}.

(** The contract of a rasteriser that draws into the caller's buffer: the
    array it leaves has the shape of the array it was given. *)
Definition draws_in_place (L : Libs) : Prop :=
  forall img text org font scale color thick lineType out,
    putText L img text org font scale color thick lineType = inr out ->
    shape out = shape img.

(** ** A small concrete world

    An instance of [Libs] on which the program runs by computation: a file
    system that is a list of named nodes, paths that are strings, a rasteriser
    that draws the bounding box of the text with a one-pixel anti-aliased rim,
    and an inpainting that fills masked pixels with zero. *)
Module Toy.

(** A file holds the image it decodes to, or nothing when it is corrupt. *)
Inductive node : Type := Dir | File (content : option ndarray).

Definition fsys : Type := list (string * node).

Fixpoint lookup (p : string) (s : fsys) : option node :=
  match s with
  | [] => None
  | (q, n) :: s' => if String.eqb p q then Some n else lookup p s'
  end.

Fixpoint update (p : string) (n : node) (s : fsys) : fsys :=
  match s with
  | [] => [(p, n)]
  | (q, m) :: s' => if String.eqb p q then (p, n) :: s' else (q, m) :: update p n s'
  end.

(** [rsplit sep s] cuts [s] at its last [sep]. *)
Fixpoint rsplit (sep : ascii) (s : string) : option (string * string) :=
  match s with
  | EmptyString => None
  | String c r =>
      match rsplit sep r with
      | Some (a, b) => Some (String c a, b)
      | None => if Ascii.eqb c sep then Some (EmptyString, r) else None
      end
  end.

Definition name (p : string) : string :=
  match rsplit "/" p with Some (_, b) => b | None => p end.

Definition parent (p : string) : string :=
  match rsplit "/" p with Some (a, _) => a | None => "." end.

(** The last suffix of the final component: empty unless the last dot has
    something on both sides. *)
Definition suffix (p : string) : string :=
  match rsplit "." (name p) with
  | Some (a, b) =>
      if orb (String.eqb a "") (String.eqb b "") then "" else String "." b
  | None => ""
  end.

Definition lower_ascii (c : ascii) : ascii :=
  let n := nat_of_ascii c in
  if andb (65 <=? n)%nat (n <=? 90)%nat then ascii_of_nat (n + 32) else c.

Fixpoint lower (s : string) : string :=
  match s with
  | EmptyString => EmptyString
  | String c r => String (lower_ascii c) (lower r)
  end.

(** The directories from the first component of [s] down to [s] itself;
    [acc] is the part already read. *)
Fixpoint ancestors (acc s : string) : list string :=
  match s with
  | EmptyString => [acc]
  | String c r =>
      if Ascii.eqb c "/" then acc :: ancestors (acc ++ "/") r
      else ancestors (acc ++ String c EmptyString) r
  end.

Definition is_dir (p : string) (s : fsys) : bool :=
  match lookup p s with Some Dir => true | _ => false end.

Definition is_reg (p : string) (s : fsys) : bool :=
  match lookup p s with Some (File _) => true | _ => false end.

Fixpoint make_dirs (ds : list string) (s : fsys) : (exn + unit) * fsys :=
  match ds with
  | [] => (inr tt, s)
  | d :: ds' =>
      match lookup d s with
      | Some Dir => make_dirs ds' s
      | Some (File _) => (inl (Exn "NotADirectoryError" d), s)
      | None => make_dirs ds' (s ++ [(d, Dir)])
      end
  end.

Definition make_dir (p : string) (parents exist_ok : bool) (s : fsys)
  : (exn + unit) * fsys :=
  match lookup p s with
  | Some Dir =>
      if exist_ok then (inr tt, s) else (inl (Exn "FileExistsError" p), s)
  | Some (File _) => (inl (Exn "FileExistsError" p), s)
  | None =>
      if parents then make_dirs (ancestors "" p) s
      else if is_dir (parent p) s then (inr tt, s ++ [(p, Dir)])
      else (inl (Exn "FileNotFoundError" p), s)
  end.

Definition list_dir (p : string) (s : fsys) : exn + list string :=
  if is_dir p s
  then inr (filter (fun q => String.eqb (parent q) p) (map fst s))
  else inl (Exn "FileNotFoundError" p).

Definition read_image (p : string) (s : fsys) : exn + option ndarray :=
  match lookup p s with
  | Some (File (Some img)) => inr (Some img)
  | _ => inr None
  end.

(** Writing fails, returning [False], when the directory is missing or the
    target is a directory. *)
Definition write_image (p : string) (img : ndarray) (s : fsys)
  : (exn + bool) * fsys :=
  if andb (is_dir (parent p) s) (negb (is_dir p s))
  then (inr true, update p (File (Some img)) s)
  else (inr false, s).

(** Four columns a character, six rows, a baseline of two. *)
Definition text_size (text : string) (font : HersheyFont) (scale : Q)
  (thick : Z) : (Z * Z) * Z :=
  ((4 * Z.of_nat (String.length text), 6), 2)%Z.

(** Full coverage inside the box that sits on the anchor, half coverage on
    the rim one pixel around it. *)
Definition coverage (text : string) (org : Z * Z) (font : HersheyFont)
  (scale : Q) (thick : Z) (r c : nat) : Z :=
  let '(x, y) := org in
  let '(tw, th) := fst (text_size text font scale thick) in
  let r := Z.of_nat r in
  let c := Z.of_nat c in
  (if andb (andb (x <=? c) (c <? x + tw)) (andb (y - th <? r) (r <=? y))
   then 255
   else if andb (andb (x - 1 <=? c) (c <? x + tw + 1))
                (andb (y - th - 1 <? r) (r <=? y + 1))
        then 128
        else 0)%Z.

Definition estimate (src mask : ndarray) (radius : Z) (flags : InpaintFlag)
  (i : nat) : Z := 0%Z.

(** Inpainting takes one or three channels and faults on anything else. *)
Definition inpaint_1_or_3 (src mask : ndarray) (radius : Z) (flags : InpaintFlag)
  : exn + ndarray :=
  match skipn 2 (shape src) with
  | [] | [1%nat] | [3%nat] => inpaint_model estimate src mask radius flags
  | _ => inl (Exn "cv2.error" "unsupported number of channels")
  end.

Definition libs : Libs :=
  {| FS := fsys; Path := string;
     mkPath := fun s => s; path_str := fun p => p; path_name := name;
     path_suffix := suffix; path_div := fun p n => (p ++ "/" ++ n)%string;
     str_lower := lower; mkdir := make_dir; iterdir := list_dir;
     is_file := is_reg;
     getTextSize := text_size;
     putText := putText_model coverage;
     inpaint := inpaint_1_or_3;
     imread := read_image; imwrite := write_image |}.

(** A [rows] by [cols] colour image whose elements are all [v]. *)
Definition flat_image (rows cols : nat) (v : Z) : ndarray :=
  {| shape := [rows; cols; 3%nat]; data := repeat v (rows * cols * 3) |}.

(** The same with an alpha channel, which the inpainting refuses. *)
Definition rgba_image (rows cols : nat) (v : Z) : ndarray :=
  {| shape := [rows; cols; 4%nat]; data := repeat v (rows * cols * 4) |}.

(** Three images and a corrupt file, all with allow-listed extensions. *)
Definition four_files : fsys :=
  [ ("in", Dir);
    ("in/a.png", File (Some (flat_image 2 3 9)));
    ("in/b.JPG", File (Some (flat_image 1 2 7)));
    ("in/broken.bmp", File None);
    ("in/c.tiff", File (Some (flat_image 2 2 5)));
    ("in/notes.txt", File None) ].

Definition start (s : fsys) : World libs := @Build_World libs s [].

End Toy.

(** ** Runs of the batch *)

Section Runs.

Context (L : Libs) (output_dir : Path L) (watermark_text : string).

(** The line that reports a file that does not decode. *)
Definition decode_error (p : Path L) : string :=
  "Error: Could not read image at " ++ path_str L p.

(** A run of the batch over [image_files] in which no call raises, told file
    by file: a file whose decode fails leaves one line on the console and
    nothing else, a file that decodes is processed.  [decoded] counts the
    files that decoded and [failed] those that did not. *)
Inductive batch_run :
  list (Path L) -> World L -> nat -> nat -> World L -> Prop :=
| run_done w :
    batch_run [] w 0 0 w
| run_decode_failure p ps w decoded failed w' :
    imread L (path_str L p) (fs w) = inr None ->
    batch_run ps (put_line (decode_error p) w) decoded failed w' ->
    batch_run (p :: ps) w decoded (S failed) w'
| run_processed p ps w image b w1 decoded failed w' :
    imread L (path_str L p) (fs w) = inr (Some image) ->
    remove_watermark L p (path_div L output_dir (path_name L p))
      watermark_text w = (inr b, w1) ->
    batch_run ps w1 decoded failed w' ->
    batch_run (p :: ps) w (S decoded) failed w'.

(** A library call of the per-image processing of [p] raises [e]; the last
    index is the world at that moment. *)
Inductive library_fault (p out : Path L) (w : World L) (e : exn)
  : World L -> Prop :=
| fault_imread :
    imread L (path_str L p) (fs w) = inl e ->
    library_fault p out w e w
| fault_mask image :
    imread L (path_str L p) (fs w) = inr (Some image) ->
    generate_text_mask L (shape image) watermark_text = inl e ->
    library_fault p out w e w
| fault_inpaint image mask :
    imread L (path_str L p) (fs w) = inr (Some image) ->
    generate_text_mask L (shape image) watermark_text = inr mask ->
    inpaint L image mask 7%Z INPAINT_TELEA = inl e ->
    library_fault p out w e w
| fault_imwrite image mask result s :
    imread L (path_str L p) (fs w) = inr (Some image) ->
    generate_text_mask L (shape image) watermark_text = inr mask ->
    inpaint L image mask 7%Z INPAINT_TELEA = inr result ->
    imwrite L (path_str L out) result (fs w) = (inl e, s) ->
    library_fault p out w e {| fs := s; console := console w |}.

End Runs.

(** The lines that close a batch. *)
Definition tally {L} (successful failed : Z) (w : World L) : World L :=
  put_line ("- Failed: " ++ str_of_int failed)
    (put_line ("- Successful: " ++ str_of_int successful)
       (put_line "Processing complete:" w)).

(** The line that opens a batch of [n] candidates. *)
Definition found_line (n : nat) : string :=
  "Found " ++ str_of_int (Z.of_nat n) ++ " images to process".

(** File systems for the concrete runs below. *)
Module Scenes.

(** An image the inpainting refuses, between two it accepts. *)
Definition faulty_batch : Toy.fsys :=
  [ ("in", Toy.Dir);
    ("in/a.png", Toy.File (Some (Toy.flat_image 2 3 9)));
    ("in/b.png", Toy.File (Some (Toy.rgba_image 2 2 4)));
    ("in/c.png", Toy.File (Some (Toy.flat_image 1 1 5))) ].

(** An input directory without any candidate. *)
Definition no_images : Toy.fsys :=
  [ ("in", Toy.Dir); ("in/readme.md", Toy.File None) ].

(** An input directory with an image and a subdirectory named like one. *)
Definition with_subdir : Toy.fsys :=
  [ ("in", Toy.Dir);
    ("in/a.png", Toy.File (Some (Toy.flat_image 2 3 9)));
    ("in/scans.PNG", Toy.Dir);
    ("in/scans.PNG/page1.png", Toy.File (Some (Toy.flat_image 1 1 1))) ].

(** A 12 by 10 colour image whose elements are all 9. *)
Definition photo : ndarray := Toy.flat_image 12 10 9.

(** The mask of the text "A" for it. *)
Definition photo_mask : ndarray :=
  match generate_text_mask Toy.libs (shape photo) "A" with
  | inr m => m
  | inl _ => np_zeros []
  end.

(** No input directory at all. *)
Definition no_input : Toy.fsys := [ ("elsewhere", Toy.Dir) ].

(** The output path is taken by a regular file. *)
Definition out_is_file : Toy.fsys :=
  [ ("in", Toy.Dir);
    ("in/a.png", Toy.File (Some (Toy.flat_image 2 3 9)));
    ("out", Toy.File None) ].

End Scenes.

(** * Properties *)

(** ** Arrays *)

Lemma imap_from_length {A B} (f : nat -> A -> B) (l : list A) (i : nat) :
  List.length (imap_from i f l) = List.length l.
Proof.
  revert i; induction l as [|a l IH]; intros i; simpl; [reflexivity|].
  now rewrite IH.
Qed.

Lemma imap_length {A B} (f : nat -> A -> B) (l : list A) :
  List.length (imap f l) = List.length l.
Proof. apply imap_from_length. Qed.

Lemma imap_from_nth {A B} (f : nat -> A -> B) (l : list A) (i n : nat) (da : A) (db : B) :
  (n < List.length l)%nat ->
  nth n (imap_from i f l) db = f (i + n)%nat (nth n l da).
Proof.
  revert i n; induction l as [|a l IH]; intros i n Hn; simpl in *; [lia|].
  destruct n as [|n].
  - now rewrite Nat.add_0_r.
  - rewrite (IH (S i) n) by lia. f_equal. lia.
Qed.

Lemma imap_nth {A B} (f : nat -> A -> B) (l : list A) (n : nat) (da : A) (db : B) :
  (n < List.length l)%nat ->
  nth n (imap f l) db = f n (nth n l da).
Proof. intros Hn. unfold imap. now rewrite (imap_from_nth f l 0 n da db Hn). Qed.

Lemma imap_nth_default {A B} (f : nat -> A -> B) (l : list A) (n : nat) (db : B) :
  (List.length l <= n)%nat -> nth n (imap f l) db = db.
Proof. intros Hn. apply nth_overflow. now rewrite imap_length. Qed.

Lemma np_zeros_shape (shp : list nat) : shape (np_zeros shp) = shp.
Proof. reflexivity. Qed.

Lemma np_zeros_length (shp : list nat) :
  List.length (data (np_zeros shp)) = size_of shp.
Proof. apply repeat_length. Qed.

Lemma np_zeros_nth (shp : list nat) (n : nat) : nth n (data (np_zeros shp)) 0%Z = 0%Z.
Proof.
  unfold np_zeros; simpl.
  destruct (Nat.lt_ge_cases n (size_of shp)) as [Hlt|Hge].
  - apply nth_repeat_lt. exact Hlt.
  - apply nth_overflow. now rewrite repeat_length.
Qed.

Lemma np_zeros_pixel (shp : list nat) (r c : nat) : pixel (np_zeros shp) r c = 0%Z.
Proof. apply np_zeros_nth. Qed.

Lemma size_of_2 (h w : nat) : size_of [h; w] = (h * w)%nat.
Proof. unfold size_of; simpl. lia. Qed.

(** ** The mask generator *)

Section MaskFacts.

Context (L : Libs).

(** What [generate_text_mask] does on a shape with at least two components. *)
Lemma generate_text_mask_eq (h w : nat) (rest : list nat) (text : string) :
  generate_text_mask L (h :: w :: rest) text =
  putText L (np_zeros [h; w]) text
    (((Z.of_nat w - fst (fst (getTextSize L text FONT_HERSHEY_SIMPLEX font_scale thickness))) / 2)%Z,
     ((Z.of_nat h + snd (fst (getTextSize L text FONT_HERSHEY_SIMPLEX font_scale thickness))) / 2)%Z)
    FONT_HERSHEY_SIMPLEX font_scale 255%Z thickness LINE_AA.
Proof.
  unfold generate_text_mask.
  destruct (getTextSize L text FONT_HERSHEY_SIMPLEX font_scale thickness)
    as [[tw th] b].
  reflexivity.
Qed.

End MaskFacts.

(** The toy rasteriser, like any instance of the model, keeps the shape. *)
Lemma putText_model_in_place coverage img text org font scale color thick lineType out :
  putText_model coverage img text org font scale color thick lineType = inr out ->
  shape out = shape img.
Proof. unfold putText_model. intros H. inversion H. reflexivity. Qed.

(** C1.  For every image shape whose first two components are [h] and [w],
    whatever follows them (no channel axis, three channels, four), and every
    text, [generate_text_mask] hands the rasteriser a two-dimensional (single
    channel) buffer of shape [h] by [w] holding [h * w] zeros, and the mask it
    returns is what the rasteriser leaves in that buffer, which has shape [h] by
    [w].  The rasteriser draws into the buffer it is given ([draws_in_place]). *)
Theorem mask_has_image_dimensions (L : Libs) (h w : nat) (rest : list nat)
  (text : string) :
  draws_in_place L ->
  exists org : Z * Z,
    generate_text_mask L (h :: w :: rest) text =
      putText L (np_zeros [h; w]) text org
        FONT_HERSHEY_SIMPLEX font_scale 255%Z thickness LINE_AA
    /\ shape (np_zeros [h; w]) = [h; w]
    /\ List.length (data (np_zeros [h; w])) = (h * w)%nat
    /\ Forall (fun v => v = 0%Z) (data (np_zeros [h; w]))
    /\ (forall m, generate_text_mask L (h :: w :: rest) text = inr m ->
                  shape m = [h; w]).
Proof.
  intros Hplace.
  eexists. split; [apply generate_text_mask_eq|].
  split; [reflexivity|].
  split; [rewrite np_zeros_length; apply size_of_2|].
  split.
  - unfold np_zeros; simpl. apply Forall_forall. intros v Hv.
    now apply repeat_spec in Hv.
  - intros m Hm. rewrite generate_text_mask_eq in Hm.
    apply Hplace in Hm. exact Hm.
Qed.

Lemma mask_has_image_dimensions_witness :
  draws_in_place Toy.libs /\
  exists org : Z * Z,
    generate_text_mask Toy.libs [4; 6; 3]%nat "A" =
      putText Toy.libs (np_zeros [4; 6]%nat) "A" org
        FONT_HERSHEY_SIMPLEX font_scale 255%Z thickness LINE_AA
    /\ shape (np_zeros [4; 6]%nat) = [4; 6]%nat
    /\ List.length (data (np_zeros [4; 6]%nat)) = 24%nat
    /\ Forall (fun v => v = 0%Z) (data (np_zeros [4; 6]%nat))
    /\ (forall m, generate_text_mask Toy.libs [4; 6; 3]%nat "A" = inr m ->
                  shape m = [4; 6]%nat).
Proof.
  assert (Hplace : draws_in_place Toy.libs).
  { intros img text org font scale color thick lineType out H.
    simpl in H. unfold putText_model in H. inversion H. reflexivity. }
  split; [exact Hplace|].
  exact (mask_has_image_dimensions Toy.libs 4 6 [3%nat] "A" Hplace).
Defined.

(** C3.  On a canvas [w] wide and [h] high, for a text measured [tw] wide and
    [th] high, [generate_text_mask] draws at the anchor
    [x = (w - tw) // 2], [y = (h + th) // 2]; both quotients are floors, also
    when [w - tw] is negative. *)
Theorem anchor_centres_text (L : Libs) (h w : nat) (rest : list nat)
  (text : string) (tw th b : Z) :
  getTextSize L text FONT_HERSHEY_SIMPLEX font_scale thickness = ((tw, th), b) ->
  let x := ((Z.of_nat w - tw) / 2)%Z in
  let y := ((Z.of_nat h + th) / 2)%Z in
  generate_text_mask L (h :: w :: rest) text =
    putText L (np_zeros [h; w]) text (x, y)
      FONT_HERSHEY_SIMPLEX font_scale 255%Z thickness LINE_AA
  /\ (2 * x <= Z.of_nat w - tw < 2 * x + 2)%Z
  /\ (2 * y <= Z.of_nat h + th < 2 * y + 2)%Z.
Proof.
  intros Hsize x y.
  split.
  - rewrite generate_text_mask_eq, Hsize. reflexivity.
  - subst x y. split.
    + pose proof (Z.div_mod (Z.of_nat w - tw) 2 ltac:(lia)) as Hd.
      pose proof (Z.mod_pos_bound (Z.of_nat w - tw) 2 ltac:(lia)) as Hm.
      lia.
    + pose proof (Z.div_mod (Z.of_nat h + th) 2 ltac:(lia)) as Hd.
      pose proof (Z.mod_pos_bound (Z.of_nat h + th) 2 ltac:(lia)) as Hm.
      lia.
Qed.

Lemma anchor_centres_text_witness :
  getTextSize Toy.libs "AB" FONT_HERSHEY_SIMPLEX font_scale thickness
    = ((8, 6), 2)%Z
  /\ generate_text_mask Toy.libs [4; 5; 3]%nat "AB" =
       putText Toy.libs (np_zeros [4; 5]%nat) "AB" (-2, 5)%Z
         FONT_HERSHEY_SIMPLEX font_scale 255%Z thickness LINE_AA
  /\ (2 * -2 <= 5 - 8 < 2 * -2 + 2)%Z
  /\ (2 * 5 <= 4 + 6 < 2 * 5 + 2)%Z.
Proof.
  split; [reflexivity|].
  exact (anchor_centres_text Toy.libs 4 5 [3%nat] "AB" 8 6 2 eq_refl).
Defined.

(** ** The mask under the modelled rasteriser *)

Section ModelledMask.

Context (L : Libs).
Context (coverage : string -> Z * Z -> HersheyFont -> Q -> Z -> nat -> nat -> Z).
Context (estimate : ndarray -> ndarray -> Z -> InpaintFlag -> nat -> Z).

Let L' := with_cv2_model L coverage estimate.

(** The anchor [generate_text_mask] computes for an [h] by [w] canvas. *)
Let anchor (h w : nat) (text : string) : Z * Z :=
  let size := fst (getTextSize L text FONT_HERSHEY_SIMPLEX font_scale thickness) in
  (((Z.of_nat w - fst size) / 2)%Z, ((Z.of_nat h + snd size) / 2)%Z).

Lemma modelled_mask_eq (h w : nat) (rest : list nat) (text : string) :
  generate_text_mask L' (h :: w :: rest) text =
  inr {| shape := [h; w];
         data := imap (fun i old =>
                         blend old 255
                           (coverage text (anchor h w text) FONT_HERSHEY_SIMPLEX
                              font_scale thickness (i / w)%nat (i mod w)%nat))
                      (repeat 0%Z (size_of [h; w])) |}.
Proof.
  rewrite generate_text_mask_eq. reflexivity.
Qed.

End ModelledMask.

(** C7.  [generate_text_mask] has no failure of its own: for every canvas
    [h] by [w] and every text, with a rasteriser that clips, it returns a mask
    of [h * w] pixels and shape [h] by [w]; this includes the texts measured
    wider than the canvas, for which the anchor's x is negative. *)
Theorem mask_generation_never_fails (L : Libs)
  (coverage : string -> Z * Z -> HersheyFont -> Q -> Z -> nat -> nat -> Z)
  (estimate : ndarray -> ndarray -> Z -> InpaintFlag -> nat -> Z)
  (h w : nat) (rest : list nat) (text : string) :
  let size := fst (getTextSize L text FONT_HERSHEY_SIMPLEX font_scale thickness) in
  let org := (((Z.of_nat w - fst size) / 2)%Z, ((Z.of_nat h + snd size) / 2)%Z) in
  exists m,
    generate_text_mask (with_cv2_model L coverage estimate) (h :: w :: rest) text
      = inr m
    /\ putText_model coverage (np_zeros [h; w]) text org
         FONT_HERSHEY_SIMPLEX font_scale 255%Z thickness LINE_AA = inr m
    /\ shape m = [h; w]
    /\ List.length (data m) = (h * w)%nat
    /\ (Z.of_nat w < fst size -> fst org < 0)%Z.
Proof.
  intros size org.
  eexists. split; [apply modelled_mask_eq|].
  split; [reflexivity|].
  split; [reflexivity|].
  split.
  - simpl. rewrite imap_length, repeat_length. apply size_of_2.
  - intros Hwide. subst org; simpl.
    apply Z.div_lt_upper_bound; lia.
Qed.

(** ** Per-image processing and the loop *)

Section BatchFacts.

Context (L : Libs).

Lemma remove_watermark_unreadable (p out : Path L) (t : string) (w : World L) :
  imread L (path_str L p) (fs w) = inr None ->
  remove_watermark L p out t w = (inr false, put_line (decode_error L p) w).
Proof.
  intros Hread. unfold remove_watermark, bind, reads. rewrite Hread.
  reflexivity.
Qed.

Lemma remove_watermark_decoded (p out : Path L) (t : string) (w : World L)
  (image mask result : ndarray) :
  imread L (path_str L p) (fs w) = inr (Some image) ->
  generate_text_mask L (shape image) t = inr mask ->
  inpaint L image mask 7%Z INPAINT_TELEA = inr result ->
  remove_watermark L p out t w =
  match imwrite L (path_str L out) result (fs w) with
  | (inr _, s) => (inr true, {| fs := s; console := console w |})
  | (inl e, s) => (inl e, {| fs := s; console := console w |})
  end.
Proof.
  intros Hread Hmask Hpaint.
  unfold remove_watermark, bind, reads, lift, writes.
  rewrite Hread, Hmask, Hpaint.
  destruct (imwrite L (path_str L out) result (fs w)) as [[e|b] s]; reflexivity.
Qed.

Lemma remove_watermark_fault (p out : Path L) (t : string) (w w' : World L)
  (e : exn) :
  library_fault L t p out w e w' ->
  remove_watermark L p out t w = (inl e, w').
Proof.
  intros Hf. unfold remove_watermark, bind, reads, lift, writes.
  destruct Hf as [Hread | image Hread Hmask | image mask Hread Hmask Hpaint
                 | image mask result s Hread Hmask Hpaint Hwrite].
  - rewrite Hread. destruct w; reflexivity.
  - rewrite Hread, Hmask. destruct w; reflexivity.
  - rewrite Hread, Hmask, Hpaint. destruct w; reflexivity.
  - rewrite Hread, Hmask, Hpaint, Hwrite. reflexivity.
Qed.

(** A file that decoded is never reported as a failure. *)
Lemma remove_watermark_true (p out : Path L) (t : string) (w w' : World L)
  (image : ndarray) (b : bool) :
  imread L (path_str L p) (fs w) = inr (Some image) ->
  remove_watermark L p out t w = (inr b, w') ->
  b = true.
Proof.
  intros Hread. unfold remove_watermark, bind, reads, lift, writes.
  rewrite Hread.
  destruct (generate_text_mask L (shape image) t) as [e|mask]; [discriminate|].
  destruct (inpaint L image mask 7%Z INPAINT_TELEA) as [e|result];
    [discriminate|].
  destruct (imwrite L (path_str L out) result (fs w)) as [[e|b'] s];
    [discriminate|].
  intros H; inversion H; reflexivity.
Qed.

Lemma process_loop_cons (out : Path L) (t : string) (p : Path L)
  (ps : list (Path L)) (c : Z) (w w1 : World L) (b : bool) :
  remove_watermark L p (path_div L out (path_name L p)) t w = (inr b, w1) ->
  process_loop L out t (p :: ps) c w =
  process_loop L out t ps (if b then c + 1 else c)%Z w1.
Proof.
  intros Hrw. cbn [process_loop]. unfold bind. rewrite Hrw. reflexivity.
Qed.

Lemma process_loop_run (out : Path L) (t : string) (files : list (Path L))
  (w w' : World L) (k j : nat) :
  batch_run L out t files w k j w' ->
  forall c, process_loop L out t files c w = (inr (c + Z.of_nat k)%Z, w').
Proof.
  induction 1 as [w | p ps w k j w' Hread _ IH
                 | p ps w image b w1 k j w' Hread Hrw _ IH]; intros c.
  - cbn. unfold ret. now rewrite Z.add_0_r.
  - rewrite (process_loop_cons out t p ps c w _ false
               (remove_watermark_unreadable p _ t w Hread)).
    apply IH.
  - rewrite (process_loop_cons out t p ps c w w1 b Hrw).
    rewrite (remove_watermark_true p _ t w w1 image b Hread Hrw).
    rewrite IH. f_equal. f_equal. lia.
Qed.

Lemma batch_run_length (out : Path L) (t : string) (files : list (Path L))
  (w w' : World L) (k j : nat) :
  batch_run L out t files w k j w' -> List.length files = (k + j)%nat.
Proof.
  induction 1; simpl; lia.
Qed.

Lemma batch_run_app (out : Path L) (t : string) (pre post : list (Path L))
  (w w1 w2 : World L) (k1 j1 k2 j2 : nat) :
  batch_run L out t pre w k1 j1 w1 ->
  batch_run L out t post w1 k2 j2 w2 ->
  batch_run L out t (pre ++ post) w (k1 + k2) (j1 + j2) w2.
Proof.
  induction 1 as [w | p ps w k j w' Hread _ IH
                 | p ps w image b w1' k j w' Hread Hrw _ IH]; intros Hpost.
  - exact Hpost.
  - simpl. apply run_decode_failure; [exact Hread | apply IH, Hpost].
  - simpl. eapply run_processed; [exact Hread | exact Hrw | apply IH, Hpost].
Qed.

(** A fault in the middle of the batch ends the loop there. *)
Lemma process_loop_fault (out : Path L) (t : string)
  (pre post : list (Path L)) (f : Path L) (w w1 w2 : World L) (k j : nat)
  (e : exn) :
  batch_run L out t pre w k j w1 ->
  remove_watermark L f (path_div L out (path_name L f)) t w1 = (inl e, w2) ->
  forall c, process_loop L out t (pre ++ f :: post) c w = (inl e, w2).
Proof.
  intros Hrun Hfault.
  induction Hrun as [w | p ps w k j w' Hread _ IH
                    | p ps w image b w1' k j w' Hread Hrw _ IH]; intros c.
  - cbn [app process_loop]. unfold bind. rewrite Hfault. reflexivity.
  - cbn [app].
    rewrite (process_loop_cons out t p _ c w _ false
               (remove_watermark_unreadable p _ t w Hread)).
    apply IH, Hfault.
  - cbn [app]. rewrite (process_loop_cons out t p _ c w w1' b Hrw).
    apply IH, Hfault.
Qed.

(** [process_images] once the output directory is made and the input
    directory is listed. *)
Lemma process_images_listed (src out t : string) (w : World L) (s1 : FS L)
  (entries : list (Path L)) :
  mkdir L (mkPath L out) true true (fs w) = (inr tt, s1) ->
  iterdir L (mkPath L src) s1 = inr entries ->
  let w1 := {| fs := s1; console := console w |} in
  let files := filter (is_candidate L) entries in
  process_images L src out t w =
  match files with
  | [] => (inr tt, put_line ("No image files found in "
                               ++ path_str L (mkPath L src)) w1)
  | _ :: _ =>
      match process_loop L (mkPath L out) t files 0%Z
              (put_line (found_line (List.length files)) w1) with
      | (inr n, w2) =>
          (inr tt, tally n (Z.of_nat (List.length files) - n)%Z w2)
      | (inl e, w2) => (inl e, w2)
      end
  end.
Proof.
  intros Hmk Hls w1 files.
  unfold process_images, bind, writes, reads. rewrite Hmk. cbn [fs].
  rewrite Hls. fold files.
  destruct files as [|f fl]; [reflexivity|].
  unfold print at 1. fold w1.
  change (put_line _ w1) with (put_line (found_line (List.length (f :: fl))) w1).
  destruct (process_loop L (mkPath L out) t (f :: fl) 0%Z
              (put_line (found_line (List.length (f :: fl))) w1))
    as [[e|n] w2]; reflexivity.
Qed.

End BatchFacts.

(** ** The batch driver *)

(** C5.  In a batch in which no call raises, every candidate whose decode
    fails leaves the line "Error: Could not read image at ..." on the console,
    is skipped (nothing is written for it) and the loop goes on with the next
    file; the batch ends with "- Successful: " followed by the number of files
    that decoded and "- Failed: " followed by the number of files whose decode
    failed. *)
Theorem batch_tally (L : Libs) (src out t : string) (w : World L) (s1 : FS L)
  (entries : list (Path L)) (decoded failed : nat) (w' : World L) :
  mkdir L (mkPath L out) true true (fs w) = (inr tt, s1) ->
  iterdir L (mkPath L src) s1 = inr entries ->
  filter (is_candidate L) entries <> [] ->
  batch_run L (mkPath L out) t (filter (is_candidate L) entries)
    (put_line (found_line (List.length (filter (is_candidate L) entries)))
       {| fs := s1; console := console w |})
    decoded failed w' ->
  process_images L src out t w =
  (inr tt, tally (Z.of_nat decoded) (Z.of_nat failed) w').
Proof.
  intros Hmk Hls Hne Hrun.
  rewrite (process_images_listed L src out t w s1 entries Hmk Hls).
  cbv zeta.
  pose proof (batch_run_length L _ _ _ _ _ _ _ Hrun) as Hlen.
  rewrite (process_loop_run L _ _ _ _ _ _ _ Hrun 0%Z).
  destruct (filter (is_candidate L) entries) as [|f fl]; [contradiction|].
  rewrite Hlen. f_equal. f_equal; lia.
Qed.

(** Three images and one corrupt file: three files written, "Successful: 3",
    "Failed: 1". *)
Lemma batch_tally_witness :
  exists w',
    process_images Toy.libs "in" "out" "SAMPLE" (Toy.start Toy.four_files)
      = (inr tt, w')
    /\ console w' =
         [ "Found 4 images to process";
           "Error: Could not read image at in/broken.bmp";
           "Processing complete:"; "- Successful: 3"; "- Failed: 1" ]
    /\ filter (fun p => String.eqb (Toy.parent p) "out") (map fst (fs w'))
         = [ "out/a.png"; "out/b.JPG"; "out/c.tiff" ].
Proof.
  eexists. split.
  - eapply (batch_tally Toy.libs "in" "out" "SAMPLE"
              (Toy.start Toy.four_files) _ _ 3 1).
    + reflexivity.
    + reflexivity.
    + discriminate.
    + eapply run_processed; [reflexivity | reflexivity |].
      eapply run_processed; [reflexivity | reflexivity |].
      eapply run_decode_failure; [reflexivity |].
      eapply run_processed; [reflexivity | reflexivity |].
      apply run_done.
  - split; reflexivity.
Defined.

(** C6.  When a library call of the per-image processing of a candidate [f]
    raises [e] (the decode, the rasteriser, the inpainting or the encode),
    [remove_watermark] raises [e], the loop and [process_images] raise [e] in
    the world of that moment, so that no candidate after [f] is touched and no
    tally is printed; [main] catches [e], prints "Error: " and its message,
    and returns, and the script exits with status 0. *)
Theorem fault_abandons_batch (L : Libs) (src out t : string) (w : World L)
  (s1 : FS L) (entries pre post : list (Path L)) (f : Path L)
  (decoded failed : nat) (w1 w2 : World L) (e : exn) :
  mkdir L (mkPath L out) true true (fs w) = (inr tt, s1) ->
  iterdir L (mkPath L src) s1 = inr entries ->
  filter (is_candidate L) entries = pre ++ f :: post ->
  batch_run L (mkPath L out) t pre
    (put_line (found_line (List.length (pre ++ f :: post)))
       {| fs := s1; console := console w |})
    decoded failed w1 ->
  library_fault L t f (path_div L (mkPath L out) (path_name L f)) w1 e w2 ->
  let args := {| input_dir := src; output_dir := out; text := t |} in
  remove_watermark L f (path_div L (mkPath L out) (path_name L f)) t w1
    = (inl e, w2)
  /\ process_images L src out t w = (inl e, w2)
  /\ main L args w = (inr tt, put_line ("Error: " ++ exn_str e) w2)
  /\ script L args w = (0%Z, put_line ("Error: " ++ exn_str e) w2).
Proof.
  intros Hmk Hls Hsplit Hrun Hfault args.
  pose proof (remove_watermark_fault L _ _ _ _ _ _ Hfault) as Hrw.
  assert (Hpi : process_images L src out t w = (inl e, w2)).
  { rewrite (process_images_listed L src out t w s1 entries Hmk Hls).
    cbv zeta. rewrite Hsplit.
    rewrite (process_loop_fault L _ _ pre post f _ _ _ _ _ e Hrun Hrw 0%Z).
    destruct pre; reflexivity. }
  assert (Hmain : main L args w
                  = (inr tt, put_line ("Error: " ++ exn_str e) w2)).
  { unfold main, try_except. cbn [input_dir output_dir text args].
    rewrite Hpi. reflexivity. }
  split; [exact Hrw|]. split; [exact Hpi|]. split; [exact Hmain|].
  unfold script. rewrite Hmain. reflexivity.
Qed.

(** The inpainting refuses the second of three images: the first is written,
    the third is never read, and the script still exits with status 0. *)
Lemma fault_abandons_batch_witness :
  exists w2,
    script Toy.libs {| input_dir := "in"; output_dir := "out"; text := "SAMPLE" |}
      (Toy.start Scenes.faulty_batch) = (0%Z, w2)
    /\ console w2 =
         [ "Found 3 images to process";
           "Error: unsupported number of channels" ]
    /\ filter (fun p => String.eqb (Toy.parent p) "out") (map fst (fs w2))
         = [ "out/a.png" ].
Proof.
  eexists. split.
  - eapply (fault_abandons_batch Toy.libs "in" "out" "SAMPLE"
              (Toy.start Scenes.faulty_batch) _ _ ["in/a.png"] ["in/c.png"]
              "in/b.png" 1 0).
    + reflexivity.
    + reflexivity.
    + reflexivity.
    + eapply run_processed; [reflexivity | reflexivity |]. apply run_done.
    + eapply fault_inpaint; reflexivity.
  - split; reflexivity.
Defined.

(** C8.  When no entry of the input directory is a candidate, [process_images]
    has first made the output directory, with [parents] and [exist_ok] set, it
    lists the input directory after that, prints "No image files found in "
    and the input directory, and returns without raising. *)
Theorem no_candidates_reported (L : Libs) (src out t : string) (w : World L)
  (s1 : FS L) (entries : list (Path L)) :
  mkdir L (mkPath L out) true true (fs w) = (inr tt, s1) ->
  iterdir L (mkPath L src) s1 = inr entries ->
  (forall f, In f entries ->
             in_extensions (str_lower L (path_suffix L f)) = false) ->
  process_images L src out t w =
  (inr tt,
   {| fs := s1;
      console := console w ++
                 [("No image files found in "
                     ++ path_str L (mkPath L src))%string] |}).
Proof.
  intros Hmk Hls Hnone.
  rewrite (process_images_listed L src out t w s1 entries Hmk Hls).
  cbv zeta.
  assert (Hfilter : filter (is_candidate L) entries = []).
  { clear Hls. induction entries as [|f fl IH]; [reflexivity|].
    cbn [filter]. unfold is_candidate at 1.
    rewrite (Hnone f (or_introl eq_refl)).
    apply IH. intros g Hg. apply Hnone. right. exact Hg. }
  rewrite Hfilter. reflexivity.
Qed.

(** An input directory holding only a text file, an output directory two
    levels below a directory that does not exist yet. *)
Lemma no_candidates_reported_witness :
  process_images Toy.libs "in" "x/y/out" "SAMPLE" (Toy.start Scenes.no_images)
  = (inr tt,
     @Build_World Toy.libs
       (Scenes.no_images
          ++ [("x", Toy.Dir); ("x/y", Toy.Dir); ("x/y/out", Toy.Dir)])
       ["No image files found in in"]).
Proof.
  apply (no_candidates_reported Toy.libs "in" "x/y/out" "SAMPLE"
           (Toy.start Scenes.no_images)
           (Scenes.no_images
              ++ [("x", Toy.Dir); ("x/y", Toy.Dir); ("x/y/out", Toy.Dir)])
           ["in/readme.md"]).
  - reflexivity.
  - reflexivity.
  - intros f [<-|[]]. reflexivity.
Defined.

(** C9.  Once the image decodes and mask and inpainting return, whatever the
    encode call returns, [True] or [False], [remove_watermark] returns [True]
    and the loop goes on with the count of successes raised by one. *)
Theorem failed_write_counts_as_success (L : Libs) (p outdir : Path L)
  (t : string) (w : World L) (image mask result : ndarray) (written : bool)
  (s : FS L) (rest : list (Path L)) (count : Z) :
  let out := path_div L outdir (path_name L p) in
  imread L (path_str L p) (fs w) = inr (Some image) ->
  generate_text_mask L (shape image) t = inr mask ->
  inpaint L image mask 7%Z INPAINT_TELEA = inr result ->
  imwrite L (path_str L out) result (fs w) = (inr written, s) ->
  remove_watermark L p out t w
    = (inr true, {| fs := s; console := console w |})
  /\ process_loop L outdir t (p :: rest) count w
     = process_loop L outdir t rest (count + 1)%Z
         {| fs := s; console := console w |}.
Proof.
  intros out Hread Hmask Hpaint Hwrite.
  assert (Hrw : remove_watermark L p out t w
                = (inr true, {| fs := s; console := console w |})).
  { rewrite (remove_watermark_decoded L p out t w image mask result
               Hread Hmask Hpaint).
    rewrite Hwrite. reflexivity. }
  split; [exact Hrw|].
  apply (process_loop_cons L outdir t p rest count w _ true Hrw).
Qed.

(** The output directory does not exist, the encode call returns [False], and
    the file still counts as a success. *)
Lemma failed_write_counts_as_success_witness :
  imwrite Toy.libs "nowhere/a.png" (Toy.flat_image 2 3 0) Toy.four_files
    = (inr false, Toy.four_files)
  /\ remove_watermark Toy.libs "in/a.png" "nowhere/a.png" "SAMPLE"
       (Toy.start Toy.four_files)
     = (inr true, Toy.start Toy.four_files)
  /\ process_loop Toy.libs "nowhere" "SAMPLE" ["in/a.png"] 0%Z
       (Toy.start Toy.four_files)
     = (inr 1%Z, Toy.start Toy.four_files).
Proof.
  split; [reflexivity|].
  eapply (failed_write_counts_as_success Toy.libs "in/a.png" "nowhere"
            "SAMPLE" (Toy.start Toy.four_files) (Toy.flat_image 2 3 9) _ _
            false Toy.four_files [] 0%Z).
  - reflexivity.
  - reflexivity.
  - reflexivity.
  - reflexivity.
Defined.

Lemma filter_candidates (L : Libs) (entries : list (Path L)) (g : Path L) :
  In g (filter (is_candidate L) entries) <->
  In g entries /\ in_extensions (str_lower L (path_suffix L g)) = true.
Proof. unfold is_candidate. apply filter_In. Qed.

(** C10.  The candidates are the entries of the input directory whose suffix,
    lowercased, is in the allow-list, and nothing else is asked of an entry:
    an entry [f] that is not a regular file (a subdirectory, say) with such a
    suffix is a candidate, and when its decode fails it is reported, the files
    after it are still processed, and it is one of the failed files of the
    tally. *)
Theorem non_file_entry_counts_as_failed (L : Libs) (src out t : string)
  (w : World L) (s1 : FS L) (entries pre post : list (Path L)) (f : Path L)
  (k1 j1 k2 j2 : nat) (w1 w' : World L) :
  mkdir L (mkPath L out) true true (fs w) = (inr tt, s1) ->
  iterdir L (mkPath L src) s1 = inr entries ->
  In f entries ->
  is_file L f s1 = false ->
  in_extensions (str_lower L (path_suffix L f)) = true ->
  filter (is_candidate L) entries = pre ++ f :: post ->
  batch_run L (mkPath L out) t pre
    (put_line (found_line (List.length (pre ++ f :: post)))
       {| fs := s1; console := console w |})
    k1 j1 w1 ->
  imread L (path_str L f) (fs w1) = inr None ->
  batch_run L (mkPath L out) t post (put_line (decode_error L f) w1)
    k2 j2 w' ->
  (forall g, In g (filter (is_candidate L) entries) <->
             In g entries /\
             in_extensions (str_lower L (path_suffix L g)) = true)
  /\ In f (filter (is_candidate L) entries)
  /\ process_images L src out t w =
     (inr tt, tally (Z.of_nat (k1 + k2)) (Z.of_nat (j1 + S j2)) w').
Proof.
  intros Hmk Hls Hin Hkind Hsuffix Hsplit Hpre Hread Hpost.
  split; [intros g; apply filter_candidates|].
  split; [apply filter_candidates; split; assumption|].
  assert (Hrun : batch_run L (mkPath L out) t
                   (filter (is_candidate L) entries)
                   (put_line
                      (found_line
                         (List.length (filter (is_candidate L) entries)))
                      {| fs := s1; console := console w |})
                   (k1 + k2) (j1 + S j2) w').
  { rewrite Hsplit.
    apply (batch_run_app L _ _ pre (f :: post) _ w1 w' k1 j1 k2 (S j2) Hpre).
    apply run_decode_failure; assumption. }
  rewrite (process_images_listed L src out t w s1 entries Hmk Hls).
  cbv zeta.
  pose proof (batch_run_length L _ _ _ _ _ _ _ Hrun) as Hlen.
  rewrite (process_loop_run L _ _ _ _ _ _ _ Hrun 0%Z).
  rewrite Hlen.
  destruct (filter (is_candidate L) entries) as [|g gl] eqn:Hfl.
  - destruct pre; discriminate Hsplit.
  - f_equal. f_equal; lia.
Qed.

(** A subdirectory named scans.PNG next to one image: the directory is a
    candidate, its decode fails, and the tally says "Failed: 1". *)
Lemma non_file_entry_counts_as_failed_witness :
  is_file Toy.libs "in/scans.PNG" Scenes.with_subdir = false
  /\ Toy.is_dir "in/scans.PNG" Scenes.with_subdir = true
  /\ exists w',
       process_images Toy.libs "in" "out" "SAMPLE"
         (Toy.start Scenes.with_subdir) = (inr tt, w')
       /\ console w' =
            [ "Found 2 images to process";
              "Error: Could not read image at in/scans.PNG";
              "Processing complete:"; "- Successful: 1"; "- Failed: 1" ].
Proof.
  split; [reflexivity|]. split; [reflexivity|].
  eexists. split.
  - eapply (non_file_entry_counts_as_failed Toy.libs "in" "out" "SAMPLE"
              (Toy.start Scenes.with_subdir) _ _ ["in/a.png"] []
              "in/scans.PNG" 1 0 0 0).
    + reflexivity.
    + reflexivity.
    + simpl. right. left. reflexivity.
    + reflexivity.
    + reflexivity.
    + reflexivity.
    + eapply run_processed; [reflexivity | reflexivity |]. apply run_done.
    + reflexivity.
    + apply run_done.
  - reflexivity.
Defined.

(** ** The inpainting call *)

Lemma nth_1_firstn_2 (shp : list nat) : nth 1 (firstn 2 shp) 0%nat = nth 1 shp 0%nat.
Proof. destruct shp as [|a [|b l]]; reflexivity. Qed.

Lemma channel_index (i k c : nat) : (k < c)%nat -> ((i * c + k) / c)%nat = i.
Proof. intros Hk. symmetry. apply (Nat.div_unique _ _ _ k); lia. Qed.

(** What the mask generator returns for the shape of an image with rows and
    columns suits the inpainting of that image. *)
Lemma mask_suits_image (L : Libs) coverage estimate (shp : list nat)
  (t : string) (mask : ndarray) :
  generate_text_mask (with_cv2_model L coverage estimate) shp t = inr mask ->
  shape mask = firstn 2 shp.
Proof.
  destruct shp as [|h [|w rest]].
  - unfold generate_text_mask.
    destruct (getTextSize _ _ _ _ _) as [[tw th] b]. discriminate.
  - unfold generate_text_mask.
    destruct (getTextSize _ _ _ _ _) as [[tw th] b]. discriminate.
  - rewrite modelled_mask_eq. intros H. injection H as <-. reflexivity.
Qed.

Lemma inpaint_model_frame estimate (image mask : ndarray) (radius : Z)
  (flags : InpaintFlag) (result : ndarray) :
  inpaint_model estimate image mask radius flags = inr result ->
  shape mask = firstn 2 (shape image)
  /\ shape result = shape image
  /\ List.length (data result) = List.length (data image)
  /\ forall r c k, (k < size_of (skipn 2 (shape image)))%nat ->
       pixel mask r c = 0%Z ->
       element result r c k = element image r c k.
Proof.
  unfold inpaint_model.
  destruct (list_eq_dec Nat.eq_dec (shape mask) (firstn 2 (shape image)))
    as [Hshape|]; [|discriminate].
  intros H. injection H as <-.
  split; [exact Hshape|]. split; [reflexivity|].
  split; [apply imap_length|].
  intros r c k Hk Hoff.
  unfold element; cbn [shape data].
  set (cols := nth 1 (shape image) 0%nat).
  set (ch := size_of (skipn 2 (shape image))) in *.
  destruct (Nat.lt_ge_cases ((r * cols + c) * ch + k)
              (List.length (data image))) as [Hlt|Hge].
  - rewrite (imap_nth _ _ _ 0%Z) by exact Hlt.
    rewrite (channel_index _ k ch Hk).
    unfold pixel in Hoff. rewrite Hshape, nth_1_firstn_2 in Hoff.
    fold cols in Hoff. rewrite Hoff. reflexivity.
  - rewrite imap_nth_default by exact Hge.
    symmetry. apply nth_overflow. exact Hge.
Qed.

(** C4.  For every image and mask, a result of the inpainting call has the
    shape of the image (rows, columns and channels) and as many elements, and
    at every pixel where the mask is zero each channel holds the value it has
    in the image; the call returns such a result whenever the mask has the
    rows and columns of the image, which the mask [remove_watermark] generates
    for a decoded image always has, and [remove_watermark] hands that result,
    unchanged, to the encode call. *)
Theorem inpaint_passes_unmasked_pixels (L : Libs)
  (coverage : string -> Z * Z -> HersheyFont -> Q -> Z -> nat -> nat -> Z)
  (estimate : ndarray -> ndarray -> Z -> InpaintFlag -> nat -> Z)
  (image mask : ndarray) :
  let L' := with_cv2_model L coverage estimate in
  (forall result,
     inpaint L' image mask 7%Z INPAINT_TELEA = inr result ->
     shape result = shape image
     /\ List.length (data result) = List.length (data image)
     /\ forall r c k, (k < size_of (skipn 2 (shape image)))%nat ->
          pixel mask r c = 0%Z ->
          element result r c k = element image r c k)
  /\ (shape mask = firstn 2 (shape image) ->
      exists result, inpaint L' image mask 7%Z INPAINT_TELEA = inr result)
  /\ (forall (p out : Path L') (t : string) (w : World L'),
        imread L' (path_str L' p) (fs w) = inr (Some image) ->
        generate_text_mask L' (shape image) t = inr mask ->
        exists result,
          inpaint L' image mask 7%Z INPAINT_TELEA = inr result
          /\ remove_watermark L' p out t w =
             match imwrite L' (path_str L' out) result (fs w) with
             | (inr _, s) => (inr true, {| fs := s; console := console w |})
             | (inl e, s) => (inl e, {| fs := s; console := console w |})
             end).
Proof.
  intros L'.
  assert (Hreturns : shape mask = firstn 2 (shape image) ->
            exists result, inpaint L' image mask 7%Z INPAINT_TELEA = inr result).
  { intros Hshape. cbn [inpaint L' with_cv2_model]. unfold inpaint_model.
    destruct (list_eq_dec Nat.eq_dec (shape mask) (firstn 2 (shape image)))
      as [_|Hne]; [|contradiction].
    eexists. reflexivity. }
  split; [|split].
  - intros result Hres.
    apply (inpaint_model_frame estimate image mask 7%Z INPAINT_TELEA result)
      in Hres.
    tauto.
  - exact Hreturns.
  - intros p out t w Hread Hmask.
    destruct (Hreturns (mask_suits_image L coverage estimate _ t mask Hmask))
      as [result Hres].
    exists result. split; [exact Hres|].
    apply (remove_watermark_decoded L' p out t w image mask result
             Hread Hmask Hres).
Qed.

(** A 12 by 10 photograph of nines under the text "A": the result has the
    shape of the photograph, the corner pixel, which the mask leaves at zero,
    keeps its nines, and the centre, which the mask covers, is filled in. *)
Lemma inpaint_passes_unmasked_pixels_witness :
  generate_text_mask Toy.libs (shape Scenes.photo) "A" = inr Scenes.photo_mask
  /\ exists result,
       inpaint (with_cv2_model Toy.libs Toy.coverage Toy.estimate)
         Scenes.photo Scenes.photo_mask 7%Z INPAINT_TELEA = inr result
       /\ shape result = [12; 10; 3]%nat
       /\ pixel Scenes.photo_mask 0 0 = 0%Z
       /\ element result 0 0 0 = element Scenes.photo 0 0 0
       /\ element Scenes.photo 0 0 0 = 9%Z
       /\ pixel Scenes.photo_mask 6 4 = 255%Z
       /\ element result 6 4 0 = 0%Z.
Proof.
  split; [reflexivity|].
  destruct (inpaint_passes_unmasked_pixels Toy.libs Toy.coverage Toy.estimate
              Scenes.photo Scenes.photo_mask)
    as [Hframe [Hreturns _]].
  destruct (Hreturns eq_refl) as [result Hres].
  destruct (Hframe result Hres) as [Hshape [_ Hpass]].
  exists result.
  split; [exact Hres|].
  split; [exact Hshape|].
  split; [reflexivity|].
  split; [apply Hpass; [vm_compute; lia | reflexivity]|].
  split; [reflexivity|].
  split; [reflexivity|].
  vm_compute in Hres. injection Hres as <-. reflexivity.
Defined.

(** * Further properties of the code *)

(** ** The mask generator *)

(** X1.  When the measured text is no wider and no higher than the canvas, the
    box whose bottom left corner is the anchor lies within the canvas; in
    every case the columns left and right of it, and the rows above and below
    it, differ by at most one. *)
Theorem fitting_text_is_centred (L : Libs) (h w : nat) (rest : list nat)
  (text : string) (tw th b : Z) :
  getTextSize L text FONT_HERSHEY_SIMPLEX font_scale thickness = ((tw, th), b) ->
  (tw <= Z.of_nat w)%Z ->
  (th <= Z.of_nat h)%Z ->
  exists x y : Z,
    generate_text_mask L (h :: w :: rest) text =
      putText L (np_zeros [h; w]) text (x, y)
        FONT_HERSHEY_SIMPLEX font_scale 255%Z thickness LINE_AA
    /\ (0 <= x /\ x + tw <= Z.of_nat w)%Z
    /\ (0 <= y - th /\ y <= Z.of_nat h)%Z
    /\ (0 <= (Z.of_nat w - (x + tw)) - x <= 1)%Z
    /\ (0 <= (Z.of_nat h - y) - (y - th) <= 1)%Z.
Proof.
  intros Hsize Hw Hh.
  exists ((Z.of_nat w - tw) / 2)%Z, ((Z.of_nat h + th) / 2)%Z.
  split; [rewrite generate_text_mask_eq, Hsize; reflexivity|].
  pose proof (Z.div_mod (Z.of_nat w - tw) 2 ltac:(lia)) as Hdx.
  pose proof (Z.mod_pos_bound (Z.of_nat w - tw) 2 ltac:(lia)) as Hmx.
  pose proof (Z.div_mod (Z.of_nat h + th) 2 ltac:(lia)) as Hdy.
  pose proof (Z.mod_pos_bound (Z.of_nat h + th) 2 ltac:(lia)) as Hmy.
  repeat split; lia.
Qed.

Lemma fitting_text_is_centred_witness :
  exists x y : Z,
    generate_text_mask Toy.libs [12; 11; 3]%nat "A" =
      putText Toy.libs (np_zeros [12; 11]%nat) "A" (x, y)
        FONT_HERSHEY_SIMPLEX font_scale 255%Z thickness LINE_AA
    /\ (0 <= x /\ x + 4 <= 11)%Z
    /\ (0 <= y - 6 /\ y <= 12)%Z
    /\ (0 <= (11 - (x + 4)) - x <= 1)%Z
    /\ (0 <= (12 - y) - (y - 6) <= 1)%Z.
Proof.
  apply (fitting_text_is_centred Toy.libs 12 11 [3%nat] "A" 4 6 2).
  - reflexivity.
  - simpl; lia.
  - simpl; lia.
Defined.

(** X2.  A shape with fewer than two components makes [generate_text_mask] raise
    IndexError when it reads [mask.shape[1]]; the rasteriser is not called. *)
Theorem short_shape_raises_index_error (L : Libs) (image_shape : list nat)
  (text : string) :
  (List.length image_shape < 2)%nat ->
  generate_text_mask L image_shape text
  = inl (Exn "IndexError" "tuple index out of range").
Proof.
  intros Hlen. unfold generate_text_mask.
  destruct (getTextSize L text FONT_HERSHEY_SIMPLEX font_scale thickness)
    as [[tw th] b].
  destruct image_shape as [|h [|w rest]]; simpl in Hlen; try lia; reflexivity.
Qed.

Lemma short_shape_raises_index_error_witness :
  generate_text_mask Toy.libs [5%nat] "SAMPLE"
  = inl (Exn "IndexError" "tuple index out of range").
Proof.
  apply (short_shape_raises_index_error Toy.libs [5%nat] "SAMPLE").
  simpl; lia.
Defined.

(** ** Per-image processing *)

Section OutcomeFacts.

Context (L : Libs).

Lemma remove_watermark_fault_inv (p out : Path L) (t : string)
  (w w' : World L) (e : exn) :
  remove_watermark L p out t w = (inl e, w') ->
  library_fault L t p out w e w'.
Proof.
  unfold remove_watermark, bind, reads, lift, writes, print, ret.
  destruct (imread L (path_str L p) (fs w)) as [e0|[image|]] eqn:Hread.
  - intros H; inversion H; subst. apply fault_imread. exact Hread.
  - destruct (generate_text_mask L (shape image) t) as [e1|mask] eqn:Hmask.
    + intros H; inversion H; subst. eapply fault_mask; eassumption.
    + destruct (inpaint L image mask 7%Z INPAINT_TELEA) as [e2|result]
        eqn:Hpaint.
      * intros H; inversion H; subst. eapply fault_inpaint; eassumption.
      * destruct (imwrite L (path_str L out) result (fs w)) as [[e3|b] s]
          eqn:Hwrite.
        -- intros H; inversion H; subst. eapply fault_imwrite; eassumption.
        -- discriminate.
  - discriminate.
Qed.

Lemma remove_watermark_returns (p out : Path L) (t : string)
  (w w1 : World L) (b : bool) :
  remove_watermark L p out t w = (inr b, w1) ->
  (imread L (path_str L p) (fs w) = inr None
   /\ b = false /\ w1 = put_line (decode_error L p) w)
  \/ (exists image, imread L (path_str L p) (fs w) = inr (Some image)
                    /\ b = true /\ console w1 = console w).
Proof.
  intros Hrw.
  destruct (imread L (path_str L p) (fs w)) as [e0|[image|]] eqn:Hread.
  - unfold remove_watermark, bind, reads in Hrw. rewrite Hread in Hrw.
    discriminate.
  - right. exists image. split; [reflexivity|].
    split; [exact (remove_watermark_true L p out t w w1 image b Hread Hrw)|].
    unfold remove_watermark, bind, reads, lift, writes, ret in Hrw.
    rewrite Hread in Hrw.
    destruct (generate_text_mask L (shape image) t); [discriminate|].
    destruct (inpaint L image _ 7%Z INPAINT_TELEA); [discriminate|].
    destruct (imwrite L (path_str L out) _ (fs w)) as [[e3|b'] s];
      [discriminate|].
    inversion Hrw. reflexivity.
  - left. rewrite (remove_watermark_unreadable L p out t w Hread) in Hrw.
    inversion Hrw. auto.
Qed.

Lemma batch_run_cons (out : Path L) (t : string) (p : Path L)
  (ps : list (Path L)) (w w1 w' : World L) (b : bool) (k j : nat) :
  remove_watermark L p (path_div L out (path_name L p)) t w = (inr b, w1) ->
  batch_run L out t ps w1 k j w' ->
  batch_run L out t (p :: ps) w
    (if b then S k else k) (if b then j else S j) w'.
Proof.
  intros Hrw Hrun.
  destruct (remove_watermark_returns _ _ t w w1 b Hrw)
    as [[Hread [-> ->]] | [image [Hread [-> _]]]].
  - apply run_decode_failure; assumption.
  - eapply run_processed; eassumption.
Qed.

Lemma process_loop_returns (out : Path L) (t : string)
  (files : list (Path L)) :
  forall (c : Z) (w w' : World L) (n : Z),
    process_loop L out t files c w = (inr n, w') ->
    exists k j, batch_run L out t files w k j w' /\ n = (c + Z.of_nat k)%Z.
Proof.
  induction files as [|p ps IH]; intros c w w' n Hloop.
  - cbn in Hloop. unfold ret in Hloop. inversion Hloop; subst.
    exists 0%nat, 0%nat. split; [apply run_done | lia].
  - cbn [process_loop] in Hloop. unfold bind in Hloop.
    destruct (remove_watermark L p (path_div L out (path_name L p)) t w)
      as [[e|b] w1] eqn:Hrw; [discriminate|].
    destruct (IH _ _ _ _ Hloop) as [k [j [Hrun Hn]]].
    exists (if b then S k else k), (if b then j else S j).
    split; [exact (batch_run_cons out t p ps w w1 w' b k j Hrw Hrun)|].
    destruct b; lia.
Qed.

Lemma process_loop_raises (out : Path L) (t : string)
  (files : list (Path L)) :
  forall (c : Z) (w w' : World L) (e : exn),
    process_loop L out t files c w = (inl e, w') ->
    exists pre f post k j w1,
      files = pre ++ f :: post
      /\ batch_run L out t pre w k j w1
      /\ library_fault L t f (path_div L out (path_name L f)) w1 e w'.
Proof.
  induction files as [|p ps IH]; intros c w w' e Hloop.
  - discriminate.
  - cbn [process_loop] in Hloop. unfold bind in Hloop.
    destruct (remove_watermark L p (path_div L out (path_name L p)) t w)
      as [[e0|b] w1] eqn:Hrw.
    + inversion Hloop; subst.
      exists [], p, ps, 0%nat, 0%nat, w. split; [reflexivity|].
      split; [apply run_done|].
      apply remove_watermark_fault_inv. exact Hrw.
    + destruct (IH _ _ _ _ Hloop)
        as [pre [f [post [k [j [w2 [Hsplit [Hrun Hfault]]]]]]]].
      exists (p :: pre), f, post,
             (if b then S k else k), (if b then j else S j), w2.
      split; [rewrite Hsplit; reflexivity|].
      split; [exact (batch_run_cons out t p pre w w1 w2 b k j Hrw Hrun)|].
      exact Hfault.
Qed.

End OutcomeFacts.

(** X3.  [remove_watermark] returns [False] exactly when the decode returns
    [None]; in that case it writes nothing and prints one line; in every other
    outcome, a return of [True] or a raised exception, it prints nothing. *)
Theorem remove_watermark_outcomes (L : Libs) (p out : Path L) (t : string)
  (w w' : World L) (r : exn + bool) :
  remove_watermark L p out t w = (r, w') ->
  (r = inr false <-> imread L (path_str L p) (fs w) = inr None)
  /\ (r = inr false ->
      fs w' = fs w /\ console w' = console w ++ [decode_error L p])
  /\ (r <> inr false -> console w' = console w).
Proof.
  intros Hrw. destruct r as [e|b].
  - apply remove_watermark_fault_inv in Hrw.
    split; [|split].
    + split; [discriminate|]. intros Hnone.
      destruct Hrw; congruence.
    + discriminate.
    + intros _. destruct Hrw; reflexivity.
  - destruct (remove_watermark_returns L p out t w w' b Hrw)
      as [[Hread [-> ->]] | [image [Hread [-> Hcons]]]].
    + split; [tauto|]. split; [intros _; split; reflexivity|].
      intros H; contradiction H; reflexivity.
    + split; [split; [discriminate | congruence]|].
      split; [discriminate|]. intros _. exact Hcons.
Qed.

Lemma remove_watermark_outcomes_witness :
  remove_watermark Toy.libs "in/broken.bmp" "out/broken.bmp" "SAMPLE"
    (Toy.start Toy.four_files)
  = (inr false,
     @Build_World Toy.libs Toy.four_files
       ["Error: Could not read image at in/broken.bmp"])
  /\ imread Toy.libs "in/broken.bmp" Toy.four_files = inr None.
Proof.
  split; [reflexivity|].
  destruct (remove_watermark_outcomes Toy.libs "in/broken.bmp"
              "out/broken.bmp" "SAMPLE" (Toy.start Toy.four_files)
              (@Build_World Toy.libs Toy.four_files
                 ["Error: Could not read image at in/broken.bmp"])
              (inr false) eq_refl) as [Hiff _].
  apply Hiff. reflexivity.
Defined.

(** ** The loop and the batch *)

(** X4.  Processing a list of files is processing a first part and then, unless
    that raised, the rest, starting from the count and the world the first
    part left. *)
Theorem process_loop_app (L : Libs) (out : Path L) (t : string)
  (xs ys : list (Path L)) (c : Z) (w : World L) :
  process_loop L out t (xs ++ ys) c w =
  match process_loop L out t xs c w with
  | (inr n, w1) => process_loop L out t ys n w1
  | (inl e, w1) => (inl e, w1)
  end.
Proof.
  revert c w. induction xs as [|p ps IH]; intros c w.
  - reflexivity.
  - cbn [app process_loop]. unfold bind.
    destruct (remove_watermark L p (path_div L out (path_name L p)) t w)
      as [[e|b] w1]; [reflexivity|].
    apply IH.
Qed.

(** X5.  Whenever a batch with at least one candidate completes, every candidate
    either failed to decode or decoded and was processed, in listing order;
    the two numbers of the tally are the counts of the two kinds and add up to
    the number of candidates announced, so the number of failures printed is
    never negative. *)
Theorem completed_batch_tally (L : Libs) (src out t : string) (w : World L)
  (s1 : FS L) (entries : list (Path L)) (w' : World L) :
  mkdir L (mkPath L out) true true (fs w) = (inr tt, s1) ->
  iterdir L (mkPath L src) s1 = inr entries ->
  filter (is_candidate L) entries <> [] ->
  process_images L src out t w = (inr tt, w') ->
  exists decoded failed w1,
    batch_run L (mkPath L out) t (filter (is_candidate L) entries)
      (put_line (found_line (List.length (filter (is_candidate L) entries)))
         {| fs := s1; console := console w |})
      decoded failed w1
    /\ (decoded + failed)%nat = List.length (filter (is_candidate L) entries)
    /\ w' = tally (Z.of_nat decoded) (Z.of_nat failed) w1.
Proof.
  intros Hmk Hls Hne Hpi.
  rewrite (process_images_listed L src out t w s1 entries Hmk Hls) in Hpi.
  cbv zeta in Hpi.
  destruct (filter (is_candidate L) entries) as [|f fl] eqn:Hfl;
    [contradiction|].
  destruct (process_loop L (mkPath L out) t (f :: fl) 0%Z
              (put_line (found_line (List.length (f :: fl)))
                 {| fs := s1; console := console w |}))
    as [[e|n] w2] eqn:Hloop; [discriminate|].
  destruct (process_loop_returns L _ _ _ _ _ _ _ Hloop) as [k [j [Hrun Hn]]].
  pose proof (batch_run_length L _ _ _ _ _ _ _ Hrun) as Hlen.
  exists k, j, w2. split; [exact Hrun|]. split; [symmetry; exact Hlen|].
  assert (HN : (Z.of_nat (List.length (f :: fl)) - n)%Z = Z.of_nat j)
    by (rewrite Hlen; lia).
  rewrite HN in Hpi. subst n. rewrite Z.add_0_l in Hpi.
  injection Hpi as <-. reflexivity.
Qed.

Lemma completed_batch_tally_witness :
  exists decoded failed w1,
    batch_run Toy.libs "out" "SAMPLE"
      ["in/a.png"; "in/b.JPG"; "in/broken.bmp"; "in/c.tiff"]
      (put_line (found_line 4)
         (@Build_World Toy.libs (Toy.four_files ++ [("out", Toy.Dir)]) []))
      decoded failed w1
    /\ (decoded + failed)%nat = 4%nat
    /\ snd (process_images Toy.libs "in" "out" "SAMPLE"
              (Toy.start Toy.four_files))
       = tally (Z.of_nat decoded) (Z.of_nat failed) w1.
Proof.
  apply (completed_batch_tally Toy.libs "in" "out" "SAMPLE"
           (Toy.start Toy.four_files)
           (Toy.four_files ++ [("out", Toy.Dir)])
           ["in/a.png"; "in/b.JPG"; "in/broken.bmp"; "in/c.tiff";
            "in/notes.txt"]).
  - reflexivity.
  - reflexivity.
  - discriminate.
  - reflexivity.
Defined.

(** X6.  An exception that leaves [process_images] was raised by the making of the
    output directory, by the listing of the input directory, or by a library
    call on one candidate after every candidate before it had been processed
    without a raise: the driver raises nothing of its own. *)
Theorem batch_failure_origin (L : Libs) (src out t : string) (w w' : World L)
  (e : exn) :
  process_images L src out t w = (inl e, w') ->
  (exists s,
     mkdir L (mkPath L out) true true (fs w) = (inl e, s)
     /\ w' = {| fs := s; console := console w |})
  \/ (exists s1,
        mkdir L (mkPath L out) true true (fs w) = (inr tt, s1)
        /\ iterdir L (mkPath L src) s1 = inl e
        /\ w' = {| fs := s1; console := console w |})
  \/ (exists s1 entries pre f post decoded failed w1,
        mkdir L (mkPath L out) true true (fs w) = (inr tt, s1)
        /\ iterdir L (mkPath L src) s1 = inr entries
        /\ filter (is_candidate L) entries = pre ++ f :: post
        /\ batch_run L (mkPath L out) t pre
             (put_line (found_line (List.length (pre ++ f :: post)))
                {| fs := s1; console := console w |})
             decoded failed w1
        /\ library_fault L t f
             (path_div L (mkPath L out) (path_name L f)) w1 e w').
Proof.
  intros Hpi.
  destruct (mkdir L (mkPath L out) true true (fs w)) as [[e0|[]] s1] eqn:Hmk.
  - left. exists s1.
    unfold process_images, bind, writes in Hpi. rewrite Hmk in Hpi.
    inversion Hpi; subst. split; reflexivity || assumption.
  - right.
    destruct (iterdir L (mkPath L src) s1) as [e1|entries] eqn:Hls.
    + left. exists s1.
      unfold process_images, bind, writes, reads in Hpi.
      rewrite Hmk in Hpi. cbn [fs] in Hpi. rewrite Hls in Hpi.
      inversion Hpi; subst. repeat split; reflexivity || assumption.
    + right.
      rewrite (process_images_listed L src out t w s1 entries Hmk Hls) in Hpi.
      cbv zeta in Hpi.
      destruct (filter (is_candidate L) entries) as [|g gl] eqn:Hfl;
        [discriminate|].
      destruct (process_loop L (mkPath L out) t (g :: gl) 0%Z
                  (put_line (found_line (List.length (g :: gl)))
                     {| fs := s1; console := console w |}))
        as [[e2|n] w2] eqn:Hloop; [|discriminate].
      inversion Hpi; subst.
      destruct (process_loop_raises L _ _ _ _ _ _ _ Hloop)
        as [pre [f [post [k [j [w1 [Hsplit [Hrun Hfault]]]]]]]].
      exists s1, entries, pre, f, post, k, j, w1.
      split; [reflexivity|]. split; [exact Hls|].
      split; [rewrite Hfl; exact Hsplit|].
      split; [rewrite <- Hsplit; exact Hrun | exact Hfault].
Qed.

Lemma batch_failure_origin_witness :
  exists pre f post decoded failed w1,
    filter (is_candidate Toy.libs) ["in/a.png"; "in/b.png"; "in/c.png"]
      = pre ++ f :: post
    /\ batch_run Toy.libs "out" "SAMPLE" pre
         (put_line (found_line (List.length (pre ++ f :: post)))
            (@Build_World Toy.libs
               (Scenes.faulty_batch ++ [("out", Toy.Dir)]) []))
         decoded failed w1
    /\ library_fault Toy.libs "SAMPLE" f
         (path_div Toy.libs "out" (path_name Toy.libs f)) w1
         (Exn "cv2.error" "unsupported number of channels")
         (snd (process_images Toy.libs "in" "out" "SAMPLE"
                 (Toy.start Scenes.faulty_batch))).
Proof.
  destruct (batch_failure_origin Toy.libs "in" "out" "SAMPLE"
              (Toy.start Scenes.faulty_batch)
              (snd (process_images Toy.libs "in" "out" "SAMPLE"
                      (Toy.start Scenes.faulty_batch)))
              (Exn "cv2.error" "unsupported number of channels") eq_refl)
    as [[s [Hmk _]] | [[s1 [Hmk [Hls _]]]
       | [s1 [entries [pre [f [post [k [j [w1 [Hmk [Hls [Hsplit
           [Hrun Hfault]]]]]]]]]]]]]].
  - apply (f_equal fst) in Hmk. vm_compute in Hmk. discriminate Hmk.
  - apply (f_equal snd) in Hmk. vm_compute in Hmk. subst s1.
    vm_compute in Hls. discriminate Hls.
  - apply (f_equal snd) in Hmk. vm_compute in Hmk. subst s1.
    vm_compute in Hls. injection Hls as <-.
    exists pre, f, post, k, j, w1.
    split; [exact Hsplit|]. split; [exact Hrun | exact Hfault].
Defined.

(** ** Directory errors and the exit status *)

(** X7.  When the making of the output directory raises, [process_images] raises
    the same exception before it lists or reads anything and prints nothing;
    [main] prints "Error: " and the message, and the script exits with
    status 0. *)
Theorem mkdir_fault_reported (L : Libs) (src out t : string) (w : World L)
  (e : exn) (s : FS L) :
  mkdir L (mkPath L out) true true (fs w) = (inl e, s) ->
  let args := {| input_dir := src; output_dir := out; text := t |} in
  process_images L src out t w
    = (inl e, {| fs := s; console := console w |})
  /\ script L args w
     = (0%Z, {| fs := s;
                console := console w ++ [("Error: " ++ exn_str e)%string] |}).
Proof.
  intros Hmk args.
  assert (Hpi : process_images L src out t w
                = (inl e, {| fs := s; console := console w |})).
  { unfold process_images, bind, writes. rewrite Hmk. reflexivity. }
  split; [exact Hpi|].
  unfold script, main, try_except. cbn [input_dir output_dir text args].
  rewrite Hpi. reflexivity.
Qed.

Lemma mkdir_fault_reported_witness :
  process_images Toy.libs "in" "out" "SAMPLE" (Toy.start Scenes.out_is_file)
    = (inl (Exn "FileExistsError" "out"), Toy.start Scenes.out_is_file)
  /\ script Toy.libs
       {| input_dir := "in"; output_dir := "out"; text := "SAMPLE" |}
       (Toy.start Scenes.out_is_file)
     = (0%Z, @Build_World Toy.libs Scenes.out_is_file ["Error: out"]).
Proof.
  apply (mkdir_fault_reported Toy.libs "in" "out" "SAMPLE"
           (Toy.start Scenes.out_is_file) (Exn "FileExistsError" "out")
           Scenes.out_is_file).
  reflexivity.
Defined.

(** X8.  When the listing of the input directory raises (the directory is missing,
    say), the output directory has already been made: [process_images] raises
    in the file system the [mkdir] left, without printing; [main] prints
    "Error: " and the message, and the script exits with status 0. *)
Theorem listing_fault_after_mkdir (L : Libs) (src out t : string)
  (w : World L) (s1 : FS L) (e : exn) :
  mkdir L (mkPath L out) true true (fs w) = (inr tt, s1) ->
  iterdir L (mkPath L src) s1 = inl e ->
  let args := {| input_dir := src; output_dir := out; text := t |} in
  process_images L src out t w
    = (inl e, {| fs := s1; console := console w |})
  /\ script L args w
     = (0%Z, {| fs := s1;
                console := console w ++ [("Error: " ++ exn_str e)%string] |}).
Proof.
  intros Hmk Hls args.
  assert (Hpi : process_images L src out t w
                = (inl e, {| fs := s1; console := console w |})).
  { unfold process_images, bind, writes, reads. rewrite Hmk. cbn [fs].
    rewrite Hls. reflexivity. }
  split; [exact Hpi|].
  unfold script, main, try_except. cbn [input_dir output_dir text args].
  rewrite Hpi. reflexivity.
Qed.

Lemma listing_fault_after_mkdir_witness :
  process_images Toy.libs "in" "out" "SAMPLE" (Toy.start Scenes.no_input)
    = (inl (Exn "FileNotFoundError" "in"),
       @Build_World Toy.libs (Scenes.no_input ++ [("out", Toy.Dir)]) [])
  /\ script Toy.libs
       {| input_dir := "in"; output_dir := "out"; text := "SAMPLE" |}
       (Toy.start Scenes.no_input)
     = (0%Z,
        @Build_World Toy.libs (Scenes.no_input ++ [("out", Toy.Dir)])
          ["Error: in"]).
Proof.
  apply (listing_fault_after_mkdir Toy.libs "in" "out" "SAMPLE"
           (Toy.start Scenes.no_input)
           (Scenes.no_input ++ [("out", Toy.Dir)])
           (Exn "FileNotFoundError" "in")).
  - reflexivity.
  - reflexivity.
Defined.

(** X9.  Whatever the libraries do, [main] returns and the script exits with
    status 0: when [process_images] returns, its world is the final one; when
    it raises, one line, "Error: " and the message, is added, and nothing
    else. *)
Theorem script_always_exits_zero (L : Libs) (args : Args) (w : World L) :
  exists w',
    main L args w = (inr tt, w')
    /\ script L args w = (0%Z, w')
    /\ (forall w1,
          process_images L (input_dir args) (output_dir args) (text args) w
            = (inr tt, w1) -> w' = w1)
    /\ (forall e w1,
          process_images L (input_dir args) (output_dir args) (text args) w
            = (inl e, w1) -> w' = put_line ("Error: " ++ exn_str e) w1).
Proof.
  unfold script, main, try_except.
  destruct (process_images L (input_dir args) (output_dir args) (text args) w)
    as [[e|[]] w1].
  - exists (put_line ("Error: " ++ exn_str e) w1).
    repeat split; try reflexivity.
    + discriminate.
    + intros e' w2 H. inversion H. reflexivity.
  - exists w1. repeat split; try reflexivity.
    + intros w2 H. inversion H. reflexivity.
    + discriminate.
Qed.
